(** * kazan JSON front end: source locations, parse errors and the parser

    A shallow embedding of [src/json/parser.h] (namespace
    [vulkan_cpu::json]).  The header defines [source], [location],
    [parse_error] and [parse_options] inline; the out-of-line members
    ([source::find_line_start_indexes], [source::get_line_and_start_index],
    [source::get_line_and_column]) and [parse] are only declared there and
    are modelled from the written specification.

    Conventions.
    - [std::size_t] is [N], taken to be 64 bits wide.  The header stores
      and passes these values and performs no arithmetic on them; offsets
      and line numbers never exceed the size of the buffer; the column
      arithmetic of [get_line_and_column] is written with its wrap-around
      modulo [2 ^ 64].
    - A byte buffer is a [list byte]; [std::string] used as text (file names,
      messages, rendered locations) is [string].
    - A possibly null pointer is an [option]. *)

From Stdlib Require Import NArith ZArith Arith List Bool Lia Sorted.
From Stdlib Require Import Strings.Ascii Strings.String Strings.Byte.
From Stdlib Require Import DecimalString DecimalN.
From Equations Require Import Equations.
Import ListNotations.

Local Open Scope string_scope.
Local Open Scope N_scope.

Local Set Warnings "-register-all".

(** ** Bytes the code distinguishes *)

Definition newline_byte : byte := x0a.
Definition tab_byte : byte := x09.

Definition is_newline (c : byte) : bool := Byte.eqb c newline_byte.
Definition is_tab (c : byte) : bool := Byte.eqb c tab_byte.

(** ** [struct source] *)

Record source : Type := {
  file_name : string;
  contents : option (list byte);      (* std::shared_ptr<const char> *)
  contents_size : N;
  line_start_indexes : list N         (* doesn't have first line to save memory *)
}.

(** What [contents.get()] lets the code read: nothing behind a null pointer. *)
Definition contents_get (p : option (list byte)) : list byte :=
  match p with
  | Some bytes => bytes
  | None => []
  end.

(** The bytes in the half-open offset range [[first, last)] of a buffer. *)
Definition byte_range (bytes : list byte) (first last : N) : list byte :=
  firstn (N.to_nat (last - first)) (skipn (N.to_nat first) bytes).

(** Modelled from the spec: the body of [source::find_line_start_indexes]
    is in parser.cpp, which is not among the sources.  The specification:
    a single forward scan; for every newline byte encountered, record the
    offset of the following byte; each entry is below the size.  So a
    newline is recorded when a byte follows it, and a newline that ends the
    buffer starts no line.  [i] is the offset of the head of the bytes still
    to be scanned. *)
Fixpoint find_line_start_indexes_from (i : N) (bytes : list byte) : list N :=
  match bytes with
  | [] => []
  | c :: rest =>
      match rest with
      | [] => []
      | _ :: _ =>
          if is_newline c
          then (i + 1) :: find_line_start_indexes_from (i + 1) rest
          else find_line_start_indexes_from (i + 1) rest
      end
  end.

(** Modelled from the spec: [source::find_line_start_indexes(contents,
    contents_size)] scans the first [contents_size] bytes from offset 0. *)
Definition find_line_start_indexes (contents : list byte) (contents_size : N)
  : list N :=
  find_line_start_indexes_from 0 (firstn (N.to_nat contents_size) contents).

(** [source()] *)
Definition source_default : source :=
  {| file_name := EmptyString; contents := None; contents_size := 0;
     line_start_indexes := [] |}.

(** [explicit source(std::string file_name)] *)
Definition source_named (file_name : string) : source :=
  {| file_name := file_name; contents := None; contents_size := 0;
     line_start_indexes := [] |}.

(** [source(std::string file_name, std::shared_ptr<const char> contents,
    std::size_t contents_size)] *)
Definition source_shared (file_name : string) (contents : option (list byte))
    (contents_size : N) : source :=
  {| file_name := file_name; contents := contents;
     contents_size := contents_size;
     line_start_indexes :=
       find_line_start_indexes (contents_get contents) contents_size |}.

(** [source(std::string file_name, std::string contents_in)]: the buffer is
    moved into a shared string, whose [data()] is never null. *)
Definition source_of_string (file_name : string) (contents_in : list byte)
  : source :=
  let contents_size := N.of_nat (List.length contents_in) in
  {| file_name := file_name; contents := Some contents_in;
     contents_size := contents_size;
     line_start_indexes := find_line_start_indexes contents_in contents_size |}.

(** [source(std::string file_name, std::vector<char> contents_in)] and the
    [std::vector<unsigned char>] overload.  [data()] of a vector without
    storage may be null; such a vector is [None] here, and it is empty. *)
Definition source_of_vector (file_name : string)
    (contents_in : option (list byte)) : source :=
  let contents_size := N.of_nat (List.length (contents_get contents_in)) in
  {| file_name := file_name; contents := contents_in;
     contents_size := contents_size;
     line_start_indexes :=
       find_line_start_indexes (contents_get contents_in) contents_size |}.

(** [explicit operator bool() const noexcept] *)
Definition source_operator_bool (s : source) : bool :=
  match contents s with
  | Some _ => true
  | None => false
  end.

(** The bytes a reader of the source may touch: [contents_size] bytes behind
    [contents.get()]. *)
Definition source_bytes (s : source) : list byte :=
  firstn (N.to_nat (contents_size s)) (contents_get (contents s)).

(** What every constructor establishes and nothing changes afterwards: the
    line index is the one computed from the buffer. *)
Definition source_well_formed (s : source) : Prop :=
  line_start_indexes s =
  find_line_start_indexes (contents_get (contents s)) (contents_size s).

(** ** [source::line_and_index] and [source::line_and_column] *)

Record line_and_index : Type := { li_line : N; li_index : N }.
Record line_and_column : Type := { lc_line : N; lc_column : N }.

(** The value-initialising default constructors. *)
Definition line_and_index_zero : line_and_index :=
  {| li_line := 0; li_index := 0 |}.
Definition line_and_column_zero : line_and_column :=
  {| lc_line := 0; lc_column := 0 |}.

(** Modelled from the spec: [ast::number_value::append_unsigned_integer_to_string]
    is declared in json.h, which is not among the sources.  It is taken to
    append the decimal digits of [value] to [buffer]. *)
Definition decimal (value : N) : string :=
  NilZero.string_of_uint (N.to_uint value).

Definition append_unsigned_integer_to_string (value : N) (buffer : string)
  : string :=
  buffer ++ decimal value.

(** [line_and_column::append_to_string] *)
Definition line_and_column_append_to_string (v : line_and_column)
    (buffer : string) : string :=
  let buffer := append_unsigned_integer_to_string (lc_line v) buffer in
  let buffer := buffer ++ ":" in
  let buffer := append_unsigned_integer_to_string (lc_column v) buffer in
  buffer.

(** [line_and_column::to_string]: [buffer.clear()] first. *)
Definition line_and_column_to_string (v : line_and_column) (buffer : string)
  : string :=
  let buffer := EmptyString in
  line_and_column_append_to_string v buffer.

Definition default_tab_size : N := 8.

(** ** Offset to line and column *)

(** Modelled from the spec: the binary search of
    [source::get_line_and_start_index] (parser.cpp is not among the sources):
    the number of entries of the sorted [v] in [[first, first + len)] that
    are not greater than [val], added to [first]. *)
Equations? upper_bound (v : list N) (val : N) (first len : nat) : nat
  by wf len lt :=
  upper_bound v val first 0 := first;
  upper_bound v val first (S n)
    with N.ltb val (nth (first + Nat.div2 (S n)) v 0) => {
    | true := upper_bound v val first (Nat.div2 (S n));
    | false := upper_bound v val (first + Nat.div2 (S n) + 1)
                 (S n - Nat.div2 (S n) - 1) }.
Proof.
  - change (Nat.div2 (S n) < S n)%nat. apply Nat.lt_div2, Nat.lt_0_succ.
  - change (S n - Nat.div2 (S n) - 1 < S n)%nat.
    generalize (Nat.div2 (S n)). intros half. lia.
Qed.

(** Modelled from the spec: [source::get_line_and_start_index] (parser.cpp
    is not among the sources).  Binary search over [line_start_indexes] for
    the greatest recorded start not after [char_index]; if none, the start is
    offset 0 and the line is 0. *)
Definition source_get_line_and_start_index (s : source) (char_index : N)
  : line_and_index :=
  let starts := line_start_indexes s in
  let line := upper_bound starts char_index 0 (List.length starts) in
  {| li_line := N.of_nat line;
     li_index := match line with
                 | O => 0
                 | S previous => nth previous starts 0
                 end |}.

(** ** [std::size_t] arithmetic: unsigned, modulo [2 ^ 64] *)

Definition size_t_modulus : N := 18446744073709551616.

Definition size_t_wrap (n : N) : N := n mod size_t_modulus.

Definition size_add (a b : N) : N := size_t_wrap (a + b).

Definition size_sub (a b : N) : N :=
  size_t_wrap (a + size_t_modulus - size_t_wrap b).

Definition size_mul (a b : N) : N := size_t_wrap (a * b).

Section ColumnBase.

(** The specification leaves open whether the first byte of a line is in
    column 0 or column 1; the column given to it is a parameter of the
    model. *)
Variable first_column : N.

(** Modelled from the spec: one step of the forward scan of
    [source::get_line_and_column].  The column is the visual one: the
    column of the first byte of the line plus the distance from it.  A tab
    byte at distance [c] moves on to distance [((c / tab_size) + 1) *
    tab_size], the next multiple of the tab size; any other byte moves on by
    one.  With columns counted from 1 this is the reading on which the rule
    and the example of the specification agree (a tab in column 1 advances
    to column 9 at tab size 8). *)
Definition advance_column (tab_size : N) (column : N) (c : byte) : N :=
  if is_tab c
  then size_add
         (size_mul
            (size_add (size_sub column first_column / tab_size) 1) tab_size)
         first_column
  else size_add column 1.

(** Modelled from the spec: [source::get_line_and_column] (parser.cpp is not
    among the sources): the line start comes from
    [get_line_and_start_index], then a forward scan over the raw bytes from
    that start to [char_index]. *)
Definition source_get_line_and_column (s : source) (char_index tab_size : N)
  : line_and_column :=
  let line_and_start_index := source_get_line_and_start_index s char_index in
  {| lc_line := li_line line_and_start_index;
     lc_column :=
       fold_left (advance_column tab_size)
         (byte_range (source_bytes s) (li_index line_and_start_index)
            char_index)
         (size_t_wrap first_column) |}.

(** ** [struct location] *)

Record location : Type := {
  loc_source : option source;         (* const source *source *)
  char_index : N
}.

(** [constexpr location() noexcept] *)
Definition location_default : location :=
  {| loc_source := None; char_index := 0 |}.

(** [location::get_line_and_start_index] *)
Definition location_get_line_and_start_index (l : location) : line_and_index :=
  match loc_source l with
  | None => line_and_index_zero
  | Some s => source_get_line_and_start_index s (char_index l)
  end.

(** [location::get_line_and_column] *)
Definition location_get_line_and_column (l : location) (tab_size : N)
  : line_and_column :=
  match loc_source l with
  | None => line_and_column_zero
  | Some s => source_get_line_and_column s (char_index l) tab_size
  end.

(** [std::string::empty] *)
Definition string_empty (s : string) : bool :=
  match s with
  | EmptyString => true
  | String _ _ => false
  end.

(** [location::append_to_string] *)
Definition location_append_to_string (l : location) (buffer : string)
    (tab_size : N) : string :=
  let buffer :=
    match loc_source l with
    | None => buffer ++ "<unknown>"
    | Some s =>
        if string_empty (file_name s)
        then buffer ++ "<unknown>"
        else buffer ++ file_name s
    end in
  let buffer := buffer ++ ":" in
  let buffer :=
    line_and_column_append_to_string
      (location_get_line_and_column l tab_size) buffer in
  buffer.

(** [location::to_string]: the buffer is cleared and [append_to_string] is
    called with one argument, so its [tab_size] takes its default. *)
Definition location_to_string (l : location) (buffer : string) (tab_size : N)
  : string :=
  let buffer := EmptyString in
  location_append_to_string l buffer default_tab_size.

(** ** [class parse_error]

    The object is its [std::runtime_error] base, which keeps the
    [std::string] it is constructed from, and the public member
    [location]. *)
Record parse_error : Type := {
  what_arg : string;                  (* the argument of runtime_error *)
  pe_location : location
}.

(** [std::string::c_str] read as a C string: the text before the first NUL
    character. *)
Fixpoint c_str (s : string) : string :=
  match s with
  | EmptyString => EmptyString
  | String c rest =>
      if Ascii.eqb c Ascii.zero then EmptyString else String c (c_str rest)
  end.

(** [std::runtime_error::what]: a [const char *] to the text kept, so what a
    caller reads ends at the first NUL character. *)
Definition what (e : parse_error) : string := c_str (what_arg e).

(** Does the text hold no NUL character? *)
Fixpoint nul_free (s : string) : bool :=
  match s with
  | EmptyString => true
  | String c rest => negb (Ascii.eqb c Ascii.zero) && nul_free rest
  end.

(** [parse_error(json::location location, const std::string &message)], and
    the [const char *] overload, which has the same body (its message is a
    C string, so it holds no NUL).  The initialiser list names the base
    class only, so the member [location] is default-constructed; inside the
    initialiser [location] is the parameter. *)
Definition parse_error_new (l : location) (message : string) : parse_error :=
  {| what_arg :=
       location_to_string l EmptyString default_tab_size ++ ": " ++ message;
     pe_location := location_default |}.

End ColumnBase.

(** ** [struct parse_options] *)

Record parse_options : Type := {
  allow_infinity_and_nan : bool;
  allow_explicit_plus_sign_in_mantissa : bool;
  allow_single_quote_strings : bool;
  allow_number_to_start_with_dot : bool
}.

Definition default_options : parse_options :=
  {| allow_infinity_and_nan := false;
     allow_explicit_plus_sign_in_mantissa := false;
     allow_single_quote_strings := false;
     allow_number_to_start_with_dot := false |}.

Definition relaxed_options : parse_options :=
  {| allow_infinity_and_nan := true;
     allow_explicit_plus_sign_in_mantissa := true;
     allow_single_quote_strings := true;
     allow_number_to_start_with_dot := true |}.

(** ** The value tree *)

(** Modelled from the spec: [ast::number_value] is declared in json.h, which
    is not among the sources.  A number keeps the exact decimal it was
    written as: sign, digits and power of ten. *)
Inductive number_value : Type :=
| finite (negative : bool) (significand : N) (exponent10 : Z)
| infinity (negative : bool)
| not_a_number.

(** Modelled from the spec: [ast::value] is declared in json.h, which is not
    among the sources; the tree has the six shapes the specification names.
    A string holds one number for each raw byte and one for each escape (the
    code point it names); an object holds its members in the order met,
    duplicates kept. *)
Inductive value : Type :=
| null_value
| boolean_value (b : bool)
| number (n : number_value)
| string_value (s : list N)
| array_value (elements : list value)
| object_value (members : list (list N * value)).

(** ** Outcomes of the parsing engine

    A parser either produces a result, fails at a byte offset with a
    message, or has used up the recursion budget it was given. *)

Inductive outcome (A : Type) : Type :=
| Parsed (a : A)
| Failed (offset : N) (message : string)
| OutOfFuel.
Arguments Parsed {A} a.
Arguments Failed {A} offset message.
Arguments OutOfFuel {A}.

Definition bind {A B : Type} (m : outcome A) (k : A -> outcome B) : outcome B :=
  match m with
  | Parsed a => k a
  | Failed offset message => Failed offset message
  | OutOfFuel => OutOfFuel
  end.

Notation "x <- m ;; k" := (bind m (fun x => k))
  (at level 61, m at next level, right associativity).
Notation "' p <- m ;; k" := (bind m (fun x => let p := x in k))
  (at level 61, p pattern, m at next level, right associativity).

(** What is left to read: the offset of the next byte and the bytes from
    there to the end of the buffer. *)
Definition cursor : Type := (N * list byte)%type.

(** ** Tokenizer (modelled from the specification, section 4.4) *)

Definition quote_byte : byte := x22.
Definition apostrophe_byte : byte := x27.
Definition backslash_byte : byte := x5c.

Definition bytes_of (s : string) : list byte := list_byte_of_string s.

Definition is_whitespace (c : byte) : bool :=
  Byte.eqb c x20 || Byte.eqb c x09 || Byte.eqb c x0d || Byte.eqb c x0a.

Definition is_digit (c : byte) : bool :=
  (48 <=? Byte.to_N c) && (Byte.to_N c <=? 57).

Definition digit_value (c : byte) : N := Byte.to_N c - 48.

Definition hex_value (c : byte) : option N :=
  let n := Byte.to_N c in
  if (48 <=? n) && (n <=? 57) then Some (n - 48)
  else if (65 <=? n) && (n <=? 70) then Some (n - 55)
  else if (97 <=? n) && (n <=? 102) then Some (n - 87)
  else None.

Definition is_control (c : byte) : bool := Byte.to_N c <? 32.

(** Modelled from the spec: whitespace skipped is space, tab, carriage
    return and line feed. *)
Fixpoint skip_whitespace (pos : N) (rest : list byte) : cursor :=
  match rest with
  | c :: rest' =>
      if is_whitespace c then skip_whitespace (pos + 1) rest' else (pos, rest)
  | [] => (pos, rest)
  end.

(** Does the input start with the bytes of [lit]? *)
Fixpoint starts_with (lit rest : list byte) : bool :=
  match lit, rest with
  | [], _ => true
  | l :: lit', c :: rest' => Byte.eqb c l && starts_with lit' rest'
  | _ :: _, [] => false
  end.

(** Modelled from the spec: a keyword literal is read byte by byte; the
    error is at the first byte that differs, or at the end of the buffer. *)
Fixpoint expect_literal (lit : list byte) (pos : N) (rest : list byte)
  : outcome cursor :=
  match lit with
  | [] => Parsed (pos, rest)
  | l :: lit' =>
      match rest with
      | [] => Failed pos "premature end of input"
      | c :: rest' =>
          if Byte.eqb c l then expect_literal lit' (pos + 1) rest'
          else Failed pos "unexpected character"
      end
  end.

(** *** String scanning *)

(** The single-character escapes and the code point each stands for. *)
Definition escape_code (c : byte) : option N :=
  if Byte.eqb c quote_byte then Some 34
  else if Byte.eqb c backslash_byte then Some 92
  else if Byte.eqb c x2f then Some 47          (* \/ *)
  else if Byte.eqb c x62 then Some 8           (* \b *)
  else if Byte.eqb c x66 then Some 12          (* \f *)
  else if Byte.eqb c x6e then Some 10          (* \n *)
  else if Byte.eqb c x72 then Some 13          (* \r *)
  else if Byte.eqb c x74 then Some 9           (* \t *)
  else None.

Definition is_high_surrogate (u : N) : bool := (55296 <=? u) && (u <=? 56319).
Definition is_low_surrogate (u : N) : bool := (56320 <=? u) && (u <=? 57343).

Definition combine_surrogates (high low : N) : N :=
  65536 + (high - 55296) * 1024 + (low - 56320).

Inductive string_state : Type :=
| in_text
| after_backslash
| in_hex (more : nat) (acc : N) (high : option N)
    (* inside the four hex digits, [more] of them after the current one;
       [high] is a high surrogate waiting for its partner *)
| want_low_backslash (high : N)
| want_low_u (high : N).

(** Modelled from the spec: the body of a string after its opening quote.
    The closing quote is the opening one; the escapes are those of
    [escape_code] and [\uXXXX]; a high surrogate must be followed at once by
    a low-surrogate escape; any other escape, a literal control character
    or the end of the buffer is an error at the offending offset. *)
Fixpoint scan_string (quote : byte) (st : string_state) (acc : list N)
    (pos : N) (rest : list byte) : outcome (list N * cursor) :=
  match rest with
  | [] => Failed pos "unterminated string"
  | c :: rest' =>
      match st with
      | in_text =>
          if Byte.eqb c quote then Parsed (rev acc, (pos + 1, rest'))
          else if Byte.eqb c backslash_byte
          then scan_string quote after_backslash acc (pos + 1) rest'
          else if is_control c
          then Failed pos "control character in string"
          else scan_string quote in_text (Byte.to_N c :: acc) (pos + 1) rest'
      | after_backslash =>
          match escape_code c with
          | Some code => scan_string quote in_text (code :: acc) (pos + 1) rest'
          | None =>
              if Byte.eqb c x75
              then scan_string quote (in_hex 3 0 None) acc (pos + 1) rest'
              else Failed pos "invalid escape sequence"
          end
      | in_hex more u high =>
          match hex_value c with
          | None => Failed pos "invalid escape sequence"
          | Some d =>
              let u := u * 16 + d in
              match more with
              | S more' =>
                  scan_string quote (in_hex more' u high) acc (pos + 1) rest'
              | O =>
                  match high with
                  | Some h =>
                      if is_low_surrogate u
                      then scan_string quote in_text
                             (combine_surrogates h u :: acc) (pos + 1) rest'
                      else Failed pos "invalid escape sequence"
                  | None =>
                      if is_high_surrogate u
                      then scan_string quote (want_low_backslash u) acc
                             (pos + 1) rest'
                      else scan_string quote in_text (u :: acc) (pos + 1)
                             rest'
                  end
              end
          end
      | want_low_backslash h =>
          if Byte.eqb c backslash_byte
          then scan_string quote (want_low_u h) acc (pos + 1) rest'
          else Failed pos "invalid escape sequence"
      | want_low_u h =>
          if Byte.eqb c x75
          then scan_string quote (in_hex 3 0 (Some h)) acc (pos + 1) rest'
          else Failed pos "invalid escape sequence"
      end
  end.

(** *** Number scanning *)

Inductive number_state : Type :=
| number_start          (* after the optional sign *)
| after_zero            (* integer part is the single digit 0 *)
| in_integer
| after_dot
| in_fraction
| after_e
| after_exponent_sign
| in_exponent.

Record number_parts : Type := {
  negative_sign : bool;
  digits_value : N;             (* integer and fraction digits read so far *)
  fraction_digits : N;          (* how many of them follow the dot *)
  exponent_negative : bool;
  exponent_value : N
}.

Definition number_parts_start (negative : bool) : number_parts :=
  {| negative_sign := negative; digits_value := 0; fraction_digits := 0;
     exponent_negative := false; exponent_value := 0 |}.

Definition push_integer_digit (p : number_parts) (c : byte) : number_parts :=
  {| negative_sign := negative_sign p;
     digits_value := digits_value p * 10 + digit_value c;
     fraction_digits := fraction_digits p;
     exponent_negative := exponent_negative p;
     exponent_value := exponent_value p |}.

Definition push_fraction_digit (p : number_parts) (c : byte) : number_parts :=
  {| negative_sign := negative_sign p;
     digits_value := digits_value p * 10 + digit_value c;
     fraction_digits := fraction_digits p + 1;
     exponent_negative := exponent_negative p;
     exponent_value := exponent_value p |}.

Definition push_exponent_digit (p : number_parts) (c : byte) : number_parts :=
  {| negative_sign := negative_sign p;
     digits_value := digits_value p;
     fraction_digits := fraction_digits p;
     exponent_negative := exponent_negative p;
     exponent_value := exponent_value p * 10 + digit_value c |}.

Definition set_exponent_negative (p : number_parts) : number_parts :=
  {| negative_sign := negative_sign p;
     digits_value := digits_value p;
     fraction_digits := fraction_digits p;
     exponent_negative := true;
     exponent_value := exponent_value p |}.

Definition number_of_parts (p : number_parts) : number_value :=
  let e := Z.of_N (exponent_value p) in
  finite (negative_sign p) (digits_value p)
    ((if exponent_negative p then - e else e) - Z.of_N (fraction_digits p))%Z.

(** States in which what has been read is a complete number. *)
Definition number_complete (st : number_state) : bool :=
  match st with
  | after_zero | in_integer | in_fraction | in_exponent => true
  | number_start | after_dot | after_e | after_exponent_sign => false
  end.

(** The number stops in front of [rest] (at offset [pos]). *)
Definition finish_number (st : number_state) (p : number_parts) (pos : N)
    (rest : list byte) : outcome (number_value * cursor) :=
  if number_complete st then Parsed (number_of_parts p, (pos, rest))
  else match rest with
       | [] => Failed pos "premature end of input"
       | _ :: _ => Failed pos "invalid number"
       end.

Definition is_exponent_mark (c : byte) : bool :=
  Byte.eqb c x65 || Byte.eqb c x45.

(** Modelled from the spec: the number state machine, left to right, after
    the sign.  The integer part is a single 0 or a non-zero digit followed
    by digits, and may be empty before a fraction when
    [allow_number_to_start_with_dot]; a fraction is a dot and one or more
    digits; an exponent is e or E, an optional sign and one or more
    digits. *)
Fixpoint scan_number (options : parse_options) (st : number_state)
    (p : number_parts) (pos : N) (rest : list byte)
  : outcome (number_value * cursor) :=
  match rest with
  | [] => finish_number st p pos rest
  | c :: rest' =>
      match st with
      | number_start =>
          if Byte.eqb c x30
          then scan_number options after_zero (push_integer_digit p c)
                 (pos + 1) rest'
          else if is_digit c
          then scan_number options in_integer (push_integer_digit p c)
                 (pos + 1) rest'
          else if Byte.eqb c x2e && allow_number_to_start_with_dot options
          then scan_number options after_dot p (pos + 1) rest'
          else finish_number st p pos rest
      | after_zero =>
          if Byte.eqb c x2e
          then scan_number options after_dot p (pos + 1) rest'
          else if is_exponent_mark c
          then scan_number options after_e p (pos + 1) rest'
          else finish_number st p pos rest
      | in_integer =>
          if is_digit c
          then scan_number options in_integer (push_integer_digit p c)
                 (pos + 1) rest'
          else if Byte.eqb c x2e
          then scan_number options after_dot p (pos + 1) rest'
          else if is_exponent_mark c
          then scan_number options after_e p (pos + 1) rest'
          else finish_number st p pos rest
      | after_dot =>
          if is_digit c
          then scan_number options in_fraction (push_fraction_digit p c)
                 (pos + 1) rest'
          else finish_number st p pos rest
      | in_fraction =>
          if is_digit c
          then scan_number options in_fraction (push_fraction_digit p c)
                 (pos + 1) rest'
          else if is_exponent_mark c
          then scan_number options after_e p (pos + 1) rest'
          else finish_number st p pos rest
      | after_e =>
          if Byte.eqb c x2b
          then scan_number options after_exponent_sign p (pos + 1) rest'
          else if Byte.eqb c x2d
          then scan_number options after_exponent_sign
                 (set_exponent_negative p) (pos + 1) rest'
          else if is_digit c
          then scan_number options in_exponent (push_exponent_digit p c)
                 (pos + 1) rest'
          else finish_number st p pos rest
      | after_exponent_sign =>
          if is_digit c
          then scan_number options in_exponent (push_exponent_digit p c)
                 (pos + 1) rest'
          else finish_number st p pos rest
      | in_exponent =>
          if is_digit c
          then scan_number options in_exponent (push_exponent_digit p c)
                 (pos + 1) rest'
          else finish_number st p pos rest
      end
  end.

(** Modelled from the spec: a number literal.  With
    [allow_infinity_and_nan] the literals Infinity, -Infinity and NaN are
    checked first; then an optional leading minus, or a leading plus when
    [allow_explicit_plus_sign_in_mantissa]; then the state machine. *)
Definition parse_number (options : parse_options) (pos : N)
    (rest : list byte) : outcome (number_value * cursor) :=
  if allow_infinity_and_nan options && starts_with (bytes_of "Infinity") rest
  then Parsed (infinity false, (pos + 8, skipn 8 rest))
  else if allow_infinity_and_nan options
          && starts_with (bytes_of "-Infinity") rest
  then Parsed (infinity true, (pos + 9, skipn 9 rest))
  else if allow_infinity_and_nan options && starts_with (bytes_of "NaN") rest
  then Parsed (not_a_number, (pos + 3, skipn 3 rest))
  else
    match rest with
    | c :: rest' =>
        if Byte.eqb c x2d
        then scan_number options number_start (number_parts_start true)
               (pos + 1) rest'
        else if Byte.eqb c x2b && allow_explicit_plus_sign_in_mantissa options
        then scan_number options number_start (number_parts_start false)
               (pos + 1) rest'
        else scan_number options number_start (number_parts_start false)
               pos rest
    | [] => Failed pos "premature end of input"
    end.

(** ** Value parser (modelled from the specification, section 4.5) *)

(** The first byte of a string: the double quote always, the single quote
    when [allow_single_quote_strings]. *)
Definition is_string_start (options : parse_options) (c : byte) : bool :=
  Byte.eqb c quote_byte
  || (Byte.eqb c apostrophe_byte && allow_single_quote_strings options).

(** The first byte of a number: a digit or the minus sign; the plus sign,
    the dot, and the first letters of Infinity and NaN when their options
    allow them. *)
Definition is_number_start (options : parse_options) (c : byte) : bool :=
  is_digit c
  || Byte.eqb c x2d
  || (Byte.eqb c x2b && allow_explicit_plus_sign_in_mantissa options)
  || (Byte.eqb c x2e && allow_number_to_start_with_dot options)
  || ((Byte.eqb c x49 || Byte.eqb c x4e) && allow_infinity_and_nan options).

(** Modelled from the spec: recursive descent over

      value  := object | array | string | number | true | false | null
      object := { ( member ( , member )* )? }
      member := string : value
      array  := [ ( value ( , value )* )? ]

    Each nonterminal skips leading whitespace, inspects the next byte to
    choose a production and fails at the current offset on a mismatch; at
    the end of the buffer where a token is expected it fails with
    premature end of input.  [fuel] bounds the number of nested calls. *)
Fixpoint parse_value (fuel : nat) (options : parse_options) (pos : N)
    (rest : list byte) {struct fuel} : outcome (value * cursor) :=
  match fuel with
  | O => OutOfFuel
  | S fuel' =>
      let '(pos, rest) := skip_whitespace pos rest in
      match rest with
      | [] => Failed pos "premature end of input"
      | c :: rest' =>
          if Byte.eqb c x7b then                          (* { *)
            let '(pos1, rest1) := skip_whitespace (pos + 1) rest' in
            match rest1 with
            | c1 :: rest2 =>
                if Byte.eqb c1 x7d
                then Parsed (object_value [], (pos1 + 1, rest2))
                else
                  '(members, after) <-
                    parse_members fuel' options [] pos1 rest1 ;;
                  Parsed (object_value members, after)
            | [] => Failed pos1 "premature end of input"
            end
          else if Byte.eqb c x5b then                     (* [ *)
            let '(pos1, rest1) := skip_whitespace (pos + 1) rest' in
            match rest1 with
            | c1 :: rest2 =>
                if Byte.eqb c1 x5d
                then Parsed (array_value [], (pos1 + 1, rest2))
                else
                  '(elements, after) <-
                    parse_elements fuel' options [] pos1 rest1 ;;
                  Parsed (array_value elements, after)
            | [] => Failed pos1 "premature end of input"
            end
          else if is_string_start options c then
            '(s, after) <- scan_string c in_text [] (pos + 1) rest' ;;
            Parsed (string_value s, after)
          else if Byte.eqb c x74 then                     (* t *)
            after <- expect_literal (bytes_of "true") pos rest ;;
            Parsed (boolean_value true, after)
          else if Byte.eqb c x66 then                     (* f *)
            after <- expect_literal (bytes_of "false") pos rest ;;
            Parsed (boolean_value false, after)
          else if Byte.eqb c x6e then                     (* n *)
            after <- expect_literal (bytes_of "null") pos rest ;;
            Parsed (null_value, after)
          else if is_number_start options c then
            '(n, after) <- parse_number options pos rest ;;
            Parsed (number n, after)
          else Failed pos "expected a value"
      end
  end

with parse_members (fuel : nat) (options : parse_options)
    (acc : list (list N * value)) (pos : N) (rest : list byte) {struct fuel}
  : outcome (list (list N * value) * cursor) :=
  match fuel with
  | O => OutOfFuel
  | S fuel' =>
      let '(pos, rest) := skip_whitespace pos rest in
      match rest with
      | [] => Failed pos "premature end of input"
      | c :: rest' =>
          if is_string_start options c then
            '(key, (pos1, rest1)) <-
              scan_string c in_text [] (pos + 1) rest' ;;
            let '(pos2, rest2) := skip_whitespace pos1 rest1 in
            match rest2 with
            | [] => Failed pos2 "premature end of input"
            | c2 :: rest3 =>
                if Byte.eqb c2 x3a then                   (* : *)
                  '(v, (pos4, rest4)) <-
                    parse_value fuel' options (pos2 + 1) rest3 ;;
                  let acc := (acc ++ [(key, v)])%list in
                  let '(pos5, rest5) := skip_whitespace pos4 rest4 in
                  match rest5 with
                  | [] => Failed pos5 "premature end of input"
                  | c5 :: rest6 =>
                      if Byte.eqb c5 x2c                  (* , *)
                      then parse_members fuel' options acc (pos5 + 1) rest6
                      else if Byte.eqb c5 x7d             (* } *)
                      then Parsed (acc, (pos5 + 1, rest6))
                      else Failed pos5 "expected , or }"
                  end
                else Failed pos2 "expected :"
            end
          else Failed pos "expected string"
      end
  end

with parse_elements (fuel : nat) (options : parse_options)
    (acc : list value) (pos : N) (rest : list byte) {struct fuel}
  : outcome (list value * cursor) :=
  match fuel with
  | O => OutOfFuel
  | S fuel' =>
      '(v, (pos1, rest1)) <- parse_value fuel' options pos rest ;;
      let acc := (acc ++ [v])%list in
      let '(pos2, rest2) := skip_whitespace pos1 rest1 in
      match rest2 with
      | [] => Failed pos2 "premature end of input"
      | c2 :: rest3 =>
          if Byte.eqb c2 x2c                              (* , *)
          then parse_elements fuel' options acc (pos2 + 1) rest3
          else if Byte.eqb c2 x5d                         (* ] *)
          then Parsed (acc, (pos2 + 1, rest3))
          else Failed pos2 "expected , or ]"
      end
  end.

(** Nested calls enough for any buffer of that many bytes. *)
Definition parse_fuel (bytes : list byte) : nat := 2 * List.length bytes + 1.

(** Modelled from the spec: one value, then nothing but whitespace up to the
    end of the buffer. *)
Definition parse_document (options : parse_options) (bytes : list byte)
  : outcome value :=
  '(v, (pos, rest)) <- parse_value (parse_fuel bytes) options 0 bytes ;;
  let '(pos, rest) := skip_whitespace pos rest in
  match rest with
  | [] => Parsed v
  | _ :: _ => Failed pos "trailing data after the value"
  end.

(** What a call of [parse] does: return the tree or throw. *)
Inductive parse_result : Type :=
| returns (v : value)
| throws (e : parse_error)
| no_result.

(** Modelled from the spec: [parse] (parser.cpp is not among the sources).
    On a violation it builds a location from the current offset and throws
    the [parse_error] made from it by the constructor of the header. *)
Definition parse (first_column : N) (s : source) (options : parse_options)
  : parse_result :=
  match parse_document options (source_bytes s) with
  | Parsed v => returns v
  | Failed offset message =>
      throws (parse_error_new first_column
                {| loc_source := Some s; char_index := offset |} message)
  | OutOfFuel => no_result
  end.

(** ** The manual scan of the testable properties

    The reference the specification compares [get_line_and_column] with: a
    byte-by-byte scan from the start of the buffer that counts the newline
    bytes passed and keeps the tab-expanded distance from the first byte of
    the current line.  The state is the line and that distance. *)







(** The offsets that follow the newline bytes of [bytes], the last byte
    included; [i] is the offset of the head of [bytes].  For a prefix of a
    buffer these are the line starts up to the end of the prefix. *)
Fixpoint offsets_after_newlines (i : N) (bytes : list byte) : list N :=
  match bytes with
  | [] => []
  | c :: rest =>
      if is_newline c
      then (i + 1) :: offsets_after_newlines (i + 1) rest
      else offsets_after_newlines (i + 1) rest
  end.

(** ** The rendered form of a location

    The format the specification fixes for tools and tests: the file name,
    or the literal text <unknown> when there is no source or its file name
    is empty, then a colon, the line, a colon and the column. *)

Definition file_or_unknown (l : location) : string :=
  match loc_source l with
  | None => "<unknown>"
  | Some s =>
      match file_name s with
      | EmptyString => "<unknown>"
      | String _ _ => file_name s
      end
  end.

Definition rendered_location (first_column : N) (l : location) (tab_size : N)
  : string :=
  let lc := location_get_line_and_column first_column l tab_size in
  file_or_unknown l ++ ":" ++ decimal (lc_line lc) ++ ":"
    ++ decimal (lc_column lc).

(** ** Documents of the testable properties *)

(** An object with a trailing comma: the eight bytes
    [{ quote a quote : 1 , }]; the closing brace is at offset 7. *)
Definition trailing_comma_document : list byte :=
  [x7b; x22; x61; x22; x3a; x31; x2c; x7d].

(** Inputs that only the relaxed options accept. *)
Definition relaxed_only_documents : list (list byte) :=
  [bytes_of "+1e5"; bytes_of "'single'"; bytes_of ".5"; bytes_of "NaN"].


(** * Properties *)

(** ** The line index *)


Lemma after_newlines_bounds (l : list byte) : forall i k,
  In k (offsets_after_newlines i l) ->
  i < k /\ k <= i + N.of_nat (List.length l).
Proof.
  induction l as [|c l IH]; intros i k Hin; simpl in Hin.
  - contradiction.
  - assert (Htail : In k (offsets_after_newlines (i + 1) l) ->
                    i < k /\ k <= i + N.of_nat (List.length (c :: l))).
    { intros H. apply IH in H. simpl List.length. lia. }
    destruct (is_newline c); [destruct Hin as [<- | Hin] |]; auto.
    simpl List.length. lia.
Qed.

Lemma after_newlines_sorted (l : list byte) : forall i,
  StronglySorted N.lt (offsets_after_newlines i l).
Proof.
  induction l as [|c l IH]; intros i; simpl.
  - constructor.
  - destruct (is_newline c); [|apply IH].
    constructor; [apply IH|].
    apply Forall_forall. intros k Hk.
    apply after_newlines_bounds in Hk. lia.
Qed.

Lemma is_newline_spec (c : byte) : is_newline c = true <-> c = newline_byte.
Proof.
  unfold is_newline. split.
  - apply Byte.byte_dec_bl.
  - apply Byte.byte_dec_lb.
Qed.

Lemma after_newlines_In (l : list byte) : forall i k,
  In k (offsets_after_newlines i l) <->
  exists j : nat, nth_error l j = Some newline_byte /\ k = i + N.of_nat j + 1.
Proof.
  induction l as [|c l IH]; intros i k; simpl.
  - split; [contradiction|]. intros [[|j] [H _]]; discriminate.
  - assert (Htail : In k (offsets_after_newlines (i + 1) l) <->
      exists j, nth_error (c :: l) (S j) = Some newline_byte /\
                k = i + N.of_nat (S j) + 1).
    { rewrite IH. split; intros [j [H1 H2]]; exists j; simpl; split; auto; lia. }
    destruct (is_newline c) eqn:Hc.
    + apply is_newline_spec in Hc. subst c. simpl. rewrite Htail.
      split.
      * intros [<- | [j H]]; [exists 0%nat | exists (S j)]; auto.
        split; [reflexivity | simpl; lia].
      * intros [[|j] [H1 H2]]; [left; simpl in H2; lia | right; eauto].
    + rewrite Htail. split.
      * intros [j H]. exists (S j). exact H.
      * intros [[|j] [H1 H2]]; [|eauto].
        simpl in H1. injection H1 as H1.
        apply is_newline_spec in H1. congruence.
Qed.

Lemma find_from_cons (c : byte) (rest : list byte) (i : N) :
  rest <> [] ->
  find_line_start_indexes_from i (c :: rest) =
  if is_newline c
  then (i + 1) :: find_line_start_indexes_from (i + 1) rest
  else find_line_start_indexes_from (i + 1) rest.
Proof. destruct rest; [congruence | reflexivity]. Qed.

(** The line index of a buffer that goes on after a prefix: the offsets
    after the newlines of the prefix, then the index of the rest. *)
Lemma find_from_app (p q : list byte) : forall i,
  q <> [] ->
  find_line_start_indexes_from i (p ++ q)%list =
  (offsets_after_newlines i p ++
   find_line_start_indexes_from (i + N.of_nat (List.length p)) q)%list.
Proof.
  induction p as [|c p IH]; intros i Hq.
  - simpl. rewrite N.add_0_r. reflexivity.
  - change ((c :: p) ++ q)%list with (c :: (p ++ q))%list.
    rewrite find_from_cons, IH by (try exact Hq; destruct p; auto; discriminate).
    replace (i + 1 + N.of_nat (List.length p))
      with (i + N.of_nat (List.length (c :: p))) by (simpl List.length; lia).
    simpl offsets_after_newlines.
    destruct (is_newline c); reflexivity.
Qed.

(** The last byte of a buffer starts no line. *)
Lemma find_from_snoc (p : list byte) (c : byte) (i : N) :
  find_line_start_indexes_from i (p ++ [c])%list = offsets_after_newlines i p.
Proof.
  rewrite find_from_app by discriminate. simpl. apply app_nil_r.
Qed.

Lemma find_from_bounds (l : list byte) (i k : N) :
  In k (find_line_start_indexes_from i l) ->
  i < k /\ k < i + N.of_nat (List.length l).
Proof.
  destruct l as [|c p _] using rev_ind; [contradiction|].
  rewrite find_from_snoc, length_app. intros H.
  apply after_newlines_bounds in H. simpl List.length. lia.
Qed.

Lemma find_from_sorted (l : list byte) (i : N) :
  StronglySorted N.lt (find_line_start_indexes_from i l).
Proof.
  destruct l as [|c p _] using rev_ind; [constructor|].
  rewrite find_from_snoc. apply after_newlines_sorted.
Qed.

Lemma find_from_In (l : list byte) (i k : N) :
  In k (find_line_start_indexes_from i l) <->
  exists j : nat,
    nth_error l j = Some newline_byte /\ k = i + N.of_nat j + 1 /\
    (S j < List.length l)%nat.
Proof.
  destruct l as [|c p _] using rev_ind.
  - split; [contradiction|]. intros [[|j] [H _]]; discriminate.
  - rewrite find_from_snoc, after_newlines_In, length_app. simpl List.length.
    split; intros [j H]; exists j.
    + destruct H as [Hj Hk].
      assert (j < List.length p)%nat by (apply nth_error_Some; congruence).
      rewrite nth_error_app1 by assumption. repeat split; auto; lia.
    + destruct H as [Hj [Hk Hlt]].
      rewrite nth_error_app1 in Hj by lia. split; assumption.
Qed.

(** ** The binary search *)


(** ** Line and column of an offset *)



Lemma source_bytes_of_string (file_name : string) (bytes : list byte) :
  source_bytes (source_of_string file_name bytes) = bytes.
Proof.
  unfold source_bytes. simpl. rewrite Nat2N.id. apply firstn_all.
Qed.

(** Each constructor of [source] yields a well-formed source. *)
Lemma constructors_well_formed :
  source_well_formed source_default /\
  (forall file_name, source_well_formed (source_named file_name)) /\
  (forall file_name contents contents_size,
     source_well_formed (source_shared file_name contents contents_size)) /\
  (forall file_name contents_in,
     source_well_formed (source_of_string file_name contents_in)) /\
  (forall file_name contents_in,
     source_well_formed (source_of_vector file_name contents_in)).
Proof. repeat split. Qed.



(** *** Arithmetic in [std::size_t] *)








Section LineAndColumn.

Variable first_column : N.
Variable tab_size : N.






End LineAndColumn.

(** ** Claims about the header's code *)

Lemma string_append_assoc (a b c : string) : (a ++ b) ++ c = a ++ (b ++ c).
Proof.
  induction a as [|x a IH]; simpl; [reflexivity | rewrite IH; reflexivity].
Qed.

Lemma string_append_cancel_l (a b c : string) : a ++ b = a ++ c -> b = c.
Proof.
  induction a as [|x a IH]; simpl; intros H; [exact H|].
  injection H as H. exact (IH H).
Qed.



(** Two texts that agree after a mark which neither holds before it agree
    before and after the mark. *)
Lemma split_at_mark (mark : Ascii.ascii) : forall s1 s2 t1 t2 : string,
  ~ In mark (list_ascii_of_string s1) ->
  ~ In mark (list_ascii_of_string s2) ->
  s1 ++ String mark t1 = s2 ++ String mark t2 ->
  s1 = s2 /\ t1 = t2.
Proof.
  induction s1 as [|x s1 IH]; intros [|y s2] t1 t2 H1 H2 Heq; simpl in *.
  - injection Heq as ->. split; reflexivity.
  - injection Heq as -> _. exfalso. apply H2. left. reflexivity.
  - injection Heq as -> _. exfalso. apply H1. left. reflexivity.
  - injection Heq as -> Heq.
    destruct (IH s2 t1 t2) as [-> ->]; auto.
Qed.

Lemma digits_without (mark : Ascii.ascii) (d : Decimal.uint) :
  (Ascii.nat_of_ascii mark < 48)%nat \/ (57 < Ascii.nat_of_ascii mark)%nat ->
  ~ In mark (list_ascii_of_string (NilEmpty.string_of_uint d)).
Proof.
  intros Hmark.
  induction d; simpl; intros Hin;
    try (destruct Hin as [<- | Hin]; [cbn in Hmark; lia | auto]).
  exact Hin.
Qed.

(** The decimal digits of a number hold no character other than digits. *)
Lemma decimal_without (mark : Ascii.ascii) (n : N) :
  (Ascii.nat_of_ascii mark < 48)%nat \/ (57 < Ascii.nat_of_ascii mark)%nat ->
  ~ In mark (list_ascii_of_string (decimal n)).
Proof.
  intros Hmark. unfold decimal, NilZero.string_of_uint.
  destruct (N.to_uint n) eqn:Hd; try (rewrite <- Hd);
    try (apply digits_without; exact Hmark).
  simpl. intros [<- | []]. cbn in Hmark. lia.
Qed.

Lemma to_uint_not_nil (n : N) : N.to_uint n <> Decimal.Nil.
Proof.
  rewrite <- (DecimalN.Unsigned.of_to n) at 1.
  rewrite DecimalN.Unsigned.to_of. unfold Decimal.unorm.
  destruct (Decimal.nzhead (N.to_uint n)); discriminate.
Qed.

(** Different numbers have different decimal digits. *)
Lemma decimal_inj (a b : N) : decimal a = decimal b -> a = b.
Proof.
  unfold decimal. intros H.
  apply (f_equal NilZero.uint_of_string) in H.
  rewrite !NilZero.usu in H by apply to_uint_not_nil.
  injection H as H. apply DecimalN.Unsigned.to_uint_inj. exact H.
Qed.

(** *** Text up to the first NUL *)

Lemma nul_free_without (s : string) :
  ~ In Ascii.zero (list_ascii_of_string s) -> nul_free s = true.
Proof.
  induction s as [|x s IH]; simpl; intros H; [reflexivity|].
  rewrite IH by tauto.
  destruct (Ascii.eqb_spec x Ascii.zero) as [-> | _]; [|reflexivity].
  exfalso. apply H. left. reflexivity.
Qed.

Lemma nul_free_append (a b : string) :
  nul_free (a ++ b) = nul_free a && nul_free b.
Proof.
  induction a as [|x a IH]; simpl; [reflexivity|].
  rewrite IH. apply andb_assoc.
Qed.

Lemma nul_free_decimal (n : N) : nul_free (decimal n) = true.
Proof. apply nul_free_without, decimal_without. left. cbn. lia. Qed.

Lemma c_str_append (a b : string) :
  nul_free a = true -> c_str (a ++ b) = a ++ c_str b.
Proof.
  induction a as [|x a IH]; simpl; intros H; [reflexivity|].
  apply andb_prop in H. destruct H as [Hx Ha].
  destruct (Ascii.eqb x Ascii.zero); [discriminate|].
  rewrite IH by exact Ha. reflexivity.
Qed.

Lemma c_str_nul_free (s : string) : nul_free s = true -> c_str s = s.
Proof.
  induction s as [|x s IH]; simpl; intros H; [reflexivity|].
  apply andb_prop in H. destruct H as [Hx Hs].
  destruct (Ascii.eqb x Ascii.zero); [discriminate|].
  rewrite IH by exact Hs. reflexivity.
Qed.


Lemma location_append_to_string_rendered (first_column : N) (l : location)
    (buffer : string) (tab_size : N) :
  location_append_to_string first_column l buffer tab_size =
  buffer ++ rendered_location first_column l tab_size.
Proof.
  unfold location_append_to_string, rendered_location, file_or_unknown,
    line_and_column_append_to_string, append_unsigned_integer_to_string.
  destruct (loc_source l) as [s|]; [destruct (file_name s)|]; simpl string_empty;
    cbv iota; rewrite !string_append_assoc; reflexivity.
Qed.

Lemma nul_free_rendered_location (first_column : N) (l : location)
    (tab_size : N) :
  nul_free (file_or_unknown l) = true ->
  nul_free (rendered_location first_column l tab_size) = true.
Proof.
  intros Hfile. unfold rendered_location. cbv zeta.
  rewrite !nul_free_append, Hfile, !nul_free_decimal. reflexivity.
Qed.

Lemma what_arg_rendered (first_column : N) (l : location) (message : string) :
  what_arg (parse_error_new first_column l message) =
  rendered_location first_column l default_tab_size ++ ": " ++ message.
Proof.
  unfold parse_error_new, location_to_string. cbn [what_arg].
  rewrite location_append_to_string_rendered. reflexivity.
Qed.

(** What [what()] shows of an error whose file text holds no NUL: the
    rendered location, a colon, a space and the message up to its first
    NUL. *)
Lemma what_rendered (first_column : N) (l : location) (message : string) :
  nul_free (file_or_unknown l) = true ->
  what (parse_error_new first_column l message) =
  rendered_location first_column l default_tab_size ++ ": " ++ c_str message.
Proof.
  intros Hfile. unfold what. rewrite what_arg_rendered.
  rewrite c_str_append by (apply nul_free_rendered_location, Hfile).
  rewrite (c_str_append ": ") by reflexivity. reflexivity.
Qed.

(** C3. [parse_error(l, message)] computes the formatted text when it is
    constructed: the string handed to [std::runtime_error] and kept by it is
    the location rendered as file-or-<unknown>, colon, line, colon, column
    (line and column at the default tab size), then a colon and a space,
    then the message.  [what()] shows that text as a C string, that is up
    to its first NUL; it is the whole text when neither the file name nor
    the message holds a NUL. *)
Theorem parse_error_what_rendered :
  forall (first_column : N) (l : location) (message : string),
    what_arg (parse_error_new first_column l message) =
      rendered_location first_column l default_tab_size ++ ": " ++ message /\
    what (parse_error_new first_column l message) =
      c_str (rendered_location first_column l default_tab_size ++ ": "
               ++ message) /\
    (nul_free (file_or_unknown l) = true ->
     nul_free message = true ->
     what (parse_error_new first_column l message) =
       rendered_location first_column l default_tab_size ++ ": " ++ message).
Proof.
  intros first_column l message.
  split; [apply what_arg_rendered|].
  split; [unfold what; rewrite what_arg_rendered; reflexivity|].
  intros Hfile Hmessage.
  rewrite what_rendered, c_str_nul_free by assumption. reflexivity.
Qed.

(** An error at the default location with a message of nine letters. *)
Lemma parse_error_what_rendered_witness :
  what (parse_error_new 1 location_default "bad token") =
  "<unknown>:0:0: bad token".
Proof.
  apply (parse_error_what_rendered 1 location_default "bad token");
    reflexivity.
Defined.

(** C4. The constructor of [parse_error] never stores the location it is
    given: whatever [l] is, the member [location] of the new object is the
    default-constructed one (no source, offset 0). *)
Theorem parse_error_location_is_default :
  forall (first_column : N) (l : location) (message : string),
    pe_location (parse_error_new first_column l message) = location_default.
Proof. reflexivity. Qed.

(** C6. [location::append_to_string] appends to the buffer the text
    <unknown> when the location has no source or the source's file name is
    empty, and the file name otherwise; then a colon; then the line and the
    column at the given tab size, in decimal, separated by a colon. *)
Theorem location_append_to_string_format :
  forall (first_column : N) (l : location) (buffer : string) (tab_size : N),
    location_append_to_string first_column l buffer tab_size =
    buffer
      ++ match loc_source l with
         | None => "<unknown>"
         | Some s =>
             if string_empty (file_name s) then "<unknown>" else file_name s
         end
      ++ ":"
      ++ decimal
           (lc_line (location_get_line_and_column first_column l tab_size))
      ++ ":"
      ++ decimal
           (lc_column (location_get_line_and_column first_column l tab_size)).
Proof.
  intros first_column l buffer tab_size.
  rewrite location_append_to_string_rendered.
  unfold rendered_location, file_or_unknown.
  destruct (loc_source l) as [s|]; [destruct (file_name s)|]; reflexivity.
Qed.

(** C7. A location without a source, the default-constructed one included,
    answers [get_line_and_start_index] with line 0, index 0 and
    [get_line_and_column] with line 0, column 0, for every tab size. *)
Theorem location_without_source_is_zero :
  forall (first_column : N) (l : location) (tab_size : N),
    loc_source l = None ->
    location_default = {| loc_source := None; char_index := 0 |} /\
    location_get_line_and_start_index l = {| li_line := 0; li_index := 0 |} /\
    location_get_line_and_column first_column l tab_size =
      {| lc_line := 0; lc_column := 0 |}.
Proof.
  intros first_column l tab_size Hnone.
  unfold location_get_line_and_start_index, location_get_line_and_column.
  rewrite Hnone. repeat split.
Qed.

(** The default-constructed location at tab size 4. *)
Lemma location_without_source_is_zero_witness :
  loc_source location_default = None /\
  location_default = {| loc_source := None; char_index := 0 |} /\
  location_get_line_and_start_index location_default =
    {| li_line := 0; li_index := 0 |} /\
  location_get_line_and_column 1 location_default 4 =
    {| lc_line := 0; lc_column := 0 |}.
Proof.
  split; [reflexivity|].
  apply (location_without_source_is_zero 1 location_default 4). reflexivity.
Defined.

(** C8. A source converts to true exactly when it has a contents buffer; a
    source constructed from a file name alone keeps that name, has no
    contents and converts to false. *)
Theorem source_operator_bool_spec :
  (forall s : source,
     source_operator_bool s = true <-> exists bytes, contents s = Some bytes) /\
  (forall file_name' : string,
     file_name (source_named file_name') = file_name' /\
     contents (source_named file_name') = None /\
     source_operator_bool (source_named file_name') = false).
Proof.
  split.
  - intros s. unfold source_operator_bool.
    destruct (contents s) as [bytes|]; split.
    + intros _. exists bytes. reflexivity.
    + reflexivity.
    + discriminate.
    + intros [bytes H]. discriminate.
  - intros file_name'. repeat split.
Qed.

(** A source built from a two-byte string converts to true. *)
Lemma source_operator_bool_spec_witness :
  source_operator_bool (source_of_string "a.json" (bytes_of "[]")) = true.
Proof.
  apply (proj1 source_operator_bool_spec).
  exists (bytes_of "[]"). reflexivity.
Defined.

(** C10. [location::to_string] clears the buffer it is given and calls
    [append_to_string] without its tab size: the result is that of
    [append_to_string] on the empty string at the default tab size 8,
    whatever the buffer and the tab size passed to [to_string]. *)
Theorem location_to_string_ignores_arguments :
  forall (first_column : N) (l : location) (buffer : string) (tab_size : N),
    default_tab_size = 8 /\
    location_to_string first_column l buffer tab_size =
    location_append_to_string first_column l EmptyString default_tab_size.
Proof. intros. split; reflexivity. Qed.

(** ** Claims about the line index and the column scan *)

(** C5. For every buffer and every size within it, the sequence returned by
    [find_line_start_indexes], which a source built from the buffer stores
    as [line_start_indexes], holds exactly the offsets of the buffer that
    come right after a newline byte, is strictly increasing, does not hold
    offset 0, and each entry is below the size. *)
Theorem find_line_start_indexes_invariant :
  forall (file_name : string) (contents : list byte) (contents_size : N),
    contents_size <= N.of_nat (List.length contents) ->
    let starts := find_line_start_indexes contents contents_size in
    line_start_indexes
      (source_shared file_name (Some contents) contents_size) = starts /\
    line_start_indexes (source_of_string file_name contents) =
      find_line_start_indexes contents (N.of_nat (List.length contents)) /\
    line_start_indexes (source_of_vector file_name (Some contents)) =
      find_line_start_indexes contents (N.of_nat (List.length contents)) /\
    (forall k : N,
       In k starts <->
       exists j : nat,
         nth_error contents j = Some newline_byte /\ k = N.of_nat j + 1 /\
         k < contents_size) /\
    StronglySorted N.lt starts /\
    ~ In 0 starts /\
    (forall k : N, In k starts -> k < contents_size).
Proof.
  intros file_name contents contents_size Hsize starts.
  assert (Hlen : List.length (firstn (N.to_nat contents_size) contents) =
                 N.to_nat contents_size)
    by (rewrite length_firstn; lia).
  do 3 (split; [reflexivity|]).
  unfold starts, find_line_start_indexes.
  split; [|split; [|split]].
  - intros k. rewrite find_from_In, Hlen.
    split; intros [j [Hj [Hk Hlt]]]; exists j.
    + rewrite nth_error_firstn in Hj.
      destruct (Nat.ltb j (N.to_nat contents_size)); [|discriminate].
      repeat split; [exact Hj | lia | lia].
    + rewrite nth_error_firstn.
      replace (Nat.ltb j (N.to_nat contents_size)) with true
        by (symmetry; apply Nat.ltb_lt; lia).
      repeat split; [exact Hj | lia | lia].
  - apply find_from_sorted.
  - intros H. apply find_from_bounds in H. lia.
  - intros k H. apply find_from_bounds in H. rewrite Hlen in H. lia.
Qed.

(** The index of the six bytes a, b, newline, c, d, newline. *)
Lemma find_line_start_indexes_invariant_witness :
  find_line_start_indexes
    (bytes_of "ab" ++ [newline_byte] ++ bytes_of "cd" ++ [newline_byte])%list
    6 = [3] /\
  StronglySorted N.lt
    (find_line_start_indexes
       (bytes_of "ab" ++ [newline_byte] ++ bytes_of "cd" ++ [newline_byte])%list
       6) /\
  ~ In 0
    (find_line_start_indexes
       (bytes_of "ab" ++ [newline_byte] ++ bytes_of "cd" ++ [newline_byte])%list
       6).
Proof.
  split; [reflexivity|].
  pose proof (find_line_start_indexes_invariant "a.json"
                (bytes_of "ab" ++ [newline_byte] ++ bytes_of "cd"
                   ++ [newline_byte])%list 6) as H.
  cbv zeta in H.
  destruct H as [_ [_ [_ [_ [Hsorted [Hzero _]]]]]];
    [vm_compute; discriminate|].
  split; assumption.
Defined.




(** ** Claims about [parse] *)

(** What the engine does with the documents of the testable properties. *)
Lemma relaxed_only_documents_outcomes :
  forall bytes : list byte,
    In bytes relaxed_only_documents ->
    (exists offset message,
       parse_document default_options bytes = Failed offset message) /\
    (exists v, parse_document relaxed_options bytes = Parsed v).
Proof.
  intros bytes Hin. unfold relaxed_only_documents in Hin. simpl in Hin.
  repeat (destruct Hin as [<- | Hin]; [split; vm_compute; eauto|]).
  contradiction.
Qed.

(** C1. Whatever source holds one of the documents [+1e5], ['single'],
    [.5] and [NaN] as its whole buffer, [parse] with the default options
    throws a [parse_error], and [parse] with the relaxed options returns a
    value. *)
Theorem parse_relaxed_only_documents :
  forall (first_column : N) (s : source) (bytes : list byte),
    In bytes [bytes_of "+1e5"; bytes_of "'single'"; bytes_of ".5";
              bytes_of "NaN"] ->
    source_bytes s = bytes ->
    (exists e, parse first_column s default_options = throws e) /\
    (exists v, parse first_column s relaxed_options = returns v).
Proof.
  intros first_column s bytes Hin Hbytes.
  destruct (relaxed_only_documents_outcomes bytes Hin)
    as [[offset [message Hstrict]] [v Hrelaxed]].
  unfold parse. rewrite Hbytes, Hstrict, Hrelaxed. eauto.
Qed.

(** The document [.5] in a source built from a string. *)
Lemma parse_relaxed_only_documents_witness :
  (exists e,
     parse 1 (source_of_string "a.json" (bytes_of ".5")) default_options =
     throws e) /\
  (exists v,
     parse 1 (source_of_string "a.json" (bytes_of ".5")) relaxed_options =
     returns v).
Proof.
  apply (parse_relaxed_only_documents 1
           (source_of_string "a.json" (bytes_of ".5")) (bytes_of ".5")).
  - right. right. left. reflexivity.
  - reflexivity.
Defined.

(** C9. On a source whose buffer is the object with a trailing comma,
    [parse] with the default options finds the violation at the closing
    brace, offset 7, and throws the [parse_error] constructed from the
    location of that offset; the member [location] of the error thrown is
    nevertheless the default one, with [char_index] 0, because the
    constructor does not store its argument. *)
Theorem parse_trailing_comma_error :
  forall (first_column : N) (file_name : string),
    let s := source_of_string file_name trailing_comma_document in
    exists message : string,
      parse first_column s default_options =
      throws (parse_error_new first_column
                {| loc_source := Some s; char_index := 7 |} message) /\
      nth_error trailing_comma_document 7 = Some x7d /\
      char_index
        (pe_location
           (parse_error_new first_column
              {| loc_source := Some s; char_index := 7 |} message)) = 0.
Proof.
  intros first_column file_name s. exists "expected string".
  split; [|split; reflexivity].
  unfold parse, s. rewrite source_bytes_of_string. reflexivity.
Qed.

(** ** The engine always answers

    Reading never makes the input longer and never uses up the recursion
    budget [parse_document] provides, so [parse] returns or throws. *)

Ltac break_match_hyp H :=
  match type of H with
  | context [match ?x with _ => _ end] => destruct x eqn:?
  end.

Ltac break_match_goal :=
  match goal with
  | |- context [match ?x with _ => _ end] => destruct x eqn:?
  end.

Lemma skip_whitespace_shrinks (rest : list byte) : forall pos pos' rest',
  skip_whitespace pos rest = (pos', rest') ->
  (List.length rest' <= List.length rest)%nat.
Proof.
  induction rest as [|c rest IH]; intros pos pos' rest' H; simpl in H.
  - injection H as _ <-. reflexivity.
  - destruct (is_whitespace c).
    + apply IH in H. simpl. lia.
    + injection H as _ <-. reflexivity.
Qed.

Lemma expect_literal_shrinks (lit : list byte) : forall pos rest pos' rest',
  expect_literal lit pos rest = Parsed (pos', rest') ->
  (List.length rest' <= List.length rest)%nat.
Proof.
  induction lit as [|l lit IH]; intros pos rest pos' rest' H; simpl in H.
  - injection H as _ <-. reflexivity.
  - destruct rest as [|c rest]; [discriminate|].
    destruct (Byte.eqb c l); [|discriminate].
    apply IH in H. simpl. lia.
Qed.

Lemma expect_literal_answers (lit : list byte) : forall pos rest,
  expect_literal lit pos rest <> OutOfFuel.
Proof.
  induction lit as [|l lit IH]; intros pos rest; simpl; [discriminate|].
  destruct rest as [|c rest]; [discriminate|].
  destruct (Byte.eqb c l); [apply IH | discriminate].
Qed.

Lemma scan_string_shrinks (quote : byte) (rest : list byte) :
  forall st acc pos s pos' rest',
    scan_string quote st acc pos rest = Parsed (s, (pos', rest')) ->
    (List.length rest' <= List.length rest)%nat.
Proof.
  induction rest as [|c rest IH]; intros st acc pos s pos' rest' H;
    simpl in H; [discriminate|].
  repeat break_match_hyp H; try discriminate;
    try (apply IH in H; simpl; lia).
  injection H as _ _ <-. simpl. lia.
Qed.

Lemma scan_string_answers (quote : byte) (rest : list byte) :
  forall st acc pos, scan_string quote st acc pos rest <> OutOfFuel.
Proof.
  induction rest as [|c rest IH]; intros st acc pos; simpl; [discriminate|].
  repeat break_match_goal; try discriminate; apply IH.
Qed.

Lemma finish_number_shrinks st p pos rest n pos' rest' :
  finish_number st p pos rest = Parsed (n, (pos', rest')) -> rest' = rest.
Proof.
  unfold finish_number. intros H.
  repeat break_match_hyp H; try discriminate. injection H as _ _ <-.
  reflexivity.
Qed.

Lemma finish_number_answers st p pos rest :
  finish_number st p pos rest <> OutOfFuel.
Proof.
  unfold finish_number. repeat break_match_goal; discriminate.
Qed.

Lemma scan_number_shrinks (options : parse_options) (rest : list byte) :
  forall st p pos n pos' rest',
    scan_number options st p pos rest = Parsed (n, (pos', rest')) ->
    (List.length rest' <= List.length rest)%nat.
Proof.
  induction rest as [|c rest IH]; intros st p pos n pos' rest' H;
    simpl in H.
  - apply finish_number_shrinks in H. subst. reflexivity.
  - repeat break_match_hyp H;
      try (apply IH in H; simpl; lia);
      apply finish_number_shrinks in H; subst; reflexivity.
Qed.

Lemma scan_number_answers (options : parse_options) (rest : list byte) :
  forall st p pos, scan_number options st p pos rest <> OutOfFuel.
Proof.
  induction rest as [|c rest IH]; intros st p pos; simpl.
  - apply finish_number_answers.
  - repeat break_match_goal;
      solve [apply IH | apply finish_number_answers].
Qed.

Lemma parse_number_shrinks options pos rest n pos' rest' :
  parse_number options pos rest = Parsed (n, (pos', rest')) ->
  (List.length rest' <= List.length rest)%nat.
Proof.
  unfold parse_number. intros H.
  pose proof (length_skipn 8 rest) as H8.
  pose proof (length_skipn 9 rest) as H9.
  pose proof (length_skipn 3 rest) as H3.
  remember (skipn 8 rest) as r8. remember (skipn 9 rest) as r9.
  remember (skipn 3 rest) as r3.
  repeat break_match_hyp H; try discriminate;
    try (injection H as _ _ <-; lia);
    apply scan_number_shrinks in H; simpl in *; lia.
Qed.

Lemma parse_number_answers options pos rest :
  parse_number options pos rest <> OutOfFuel.
Proof.
  unfold parse_number.
  repeat break_match_goal; try discriminate; apply scan_number_answers.
Qed.

#[local] Arguments expect_literal : simpl never.
#[local] Arguments scan_string : simpl never.
#[local] Arguments parse_number : simpl never.
#[local] Arguments skip_whitespace : simpl never.

Ltac shrink_facts IHv IHm IHe :=
  repeat match goal with
  | E : Parsed _ = Parsed _ |- _ => injection E as E; subst
  | E : (_, _) = (_, _) |- _ => injection E as E; subst
  | E : skip_whitespace _ _ = (_, _) |- _ =>
      apply skip_whitespace_shrinks in E
  | E : scan_string _ _ _ _ _ = Parsed (_, (_, _)) |- _ =>
      apply scan_string_shrinks in E
  | E : expect_literal _ _ _ = Parsed (_, _) |- _ =>
      apply expect_literal_shrinks in E
  | E : parse_number _ _ _ = Parsed (_, (_, _)) |- _ =>
      apply parse_number_shrinks in E
  | E : parse_value _ _ _ _ = Parsed (_, (_, _)) |- _ => apply IHv in E
  | E : parse_members _ _ _ _ _ = Parsed (_, (_, _)) |- _ => apply IHm in E
  | E : parse_elements _ _ _ _ _ = Parsed (_, (_, _)) |- _ => apply IHe in E
  end.

(** The three mutually recursive parsers, whatever their budget, leave no
    more input than they were given. *)
Lemma parsers_shrink (fuel : nat) :
  (forall options pos rest v pos' rest',
     parse_value fuel options pos rest = Parsed (v, (pos', rest')) ->
     (List.length rest' <= List.length rest)%nat) /\
  (forall options acc pos rest ms pos' rest',
     parse_members fuel options acc pos rest = Parsed (ms, (pos', rest')) ->
     (List.length rest' <= List.length rest)%nat) /\
  (forall options acc pos rest vs pos' rest',
     parse_elements fuel options acc pos rest = Parsed (vs, (pos', rest')) ->
     (List.length rest' <= List.length rest)%nat).
Proof.
  induction fuel as [|fuel [IHv [IHm IHe]]].
  - repeat split; intros *; discriminate.
  - repeat split; intros *; intros H; simpl in H; unfold bind in H;
      repeat (break_match_hyp H; try discriminate);
      shrink_facts IHv IHm IHe; simpl in *; lia.
Qed.

Ltac answer_facts IHv IHm IHe :=
  match goal with
  | E : scan_string _ _ _ _ _ = OutOfFuel |- _ =>
      exact (scan_string_answers _ _ _ _ _ E)
  | E : expect_literal _ _ _ = OutOfFuel |- _ =>
      exact (expect_literal_answers _ _ _ E)
  | E : parse_number _ _ _ = OutOfFuel |- _ =>
      exact (parse_number_answers _ _ _ E)
  | E : parse_value _ _ _ _ = OutOfFuel |- _ =>
      refine (IHv _ _ _ _ E); simpl in *; lia
  | E : parse_members _ _ _ _ _ = OutOfFuel |- _ =>
      refine (IHm _ _ _ _ _ E); simpl in *; lia
  | E : parse_elements _ _ _ _ _ = OutOfFuel |- _ =>
      refine (IHe _ _ _ _ _ E); simpl in *; lia
  end.

(** With a budget of twice the input length and one more, a value gets its
    answer; the list parsers need one more than that. *)
Lemma parsers_answer (fuel : nat) :
  (forall options pos rest,
     (2 * List.length rest + 1 <= fuel)%nat ->
     parse_value fuel options pos rest <> OutOfFuel) /\
  (forall options acc pos rest,
     (2 * List.length rest + 2 <= fuel)%nat ->
     parse_members fuel options acc pos rest <> OutOfFuel) /\
  (forall options acc pos rest,
     (2 * List.length rest + 2 <= fuel)%nat ->
     parse_elements fuel options acc pos rest <> OutOfFuel).
Proof.
  induction fuel as [|fuel [IHv [IHm IHe]]].
  - repeat split; intros options; intros; simpl in *; lia.
  - destruct (parsers_shrink fuel) as [Sv [Sm Se]].
    repeat split; intros * Hfuel H; simpl in H; unfold bind in H;
      repeat (break_match_hyp H; try discriminate);
      shrink_facts Sv Sm Se; answer_facts IHv IHm IHe.
Qed.

(** [parse_document] never uses up its budget. *)
Lemma parse_document_answers (options : parse_options) (bytes : list byte) :
  parse_document options bytes <> OutOfFuel.
Proof.
  unfold parse_document, bind. intros H.
  destruct (parse_value (parse_fuel bytes) options 0 bytes)
    as [[v [pos rest]]| |] eqn:Hvalue; try discriminate.
  - destruct (skip_whitespace pos rest) as [pos' rest'].
    destruct rest'; discriminate.
  - refine (proj1 (parsers_answer (parse_fuel bytes)) _ _ _ _ Hvalue).
    unfold parse_fuel. lia.
Qed.

(** [parse] is total: it returns a value or throws a [parse_error]. *)
Theorem parse_returns_or_throws :
  forall (first_column : N) (s : source) (options : parse_options),
    (exists v, parse first_column s options = returns v) \/
    (exists e, parse first_column s options = throws e).
Proof.
  intros first_column s options. unfold parse.
  pose proof (parse_document_answers options (source_bytes s)) as Hanswer.
  destruct (parse_document options (source_bytes s)); eauto.
  contradiction.
Qed.

(** ** Further properties of the rendering code of the header *)

Lemma line_and_column_append_to_string_rendered (v : line_and_column)
    (buffer : string) :
  line_and_column_append_to_string v buffer =
  buffer ++ decimal (lc_line v) ++ ":" ++ decimal (lc_column v).
Proof.
  unfold line_and_column_append_to_string, append_unsigned_integer_to_string.
  rewrite !string_append_assoc. reflexivity.
Qed.

Lemma line_and_column_to_string_rendered (v : line_and_column)
    (buffer : string) :
  line_and_column_to_string v buffer =
  decimal (lc_line v) ++ ":" ++ decimal (lc_column v).
Proof.
  unfold line_and_column_to_string.
  rewrite line_and_column_append_to_string_rendered. reflexivity.
Qed.

Lemma colon_is_no_digit :
  (Ascii.nat_of_ascii ":"%char < 48)%nat \/ (57 < Ascii.nat_of_ascii ":"%char)%nat.
Proof. right. cbn. lia. Qed.

Lemma line_colon_column_inj (v w : line_and_column) (t1 t2 : string) :
  decimal (lc_line v) ++ ":" ++ decimal (lc_column v) ++ String ":"%char t1 =
  decimal (lc_line w) ++ ":" ++ decimal (lc_column w) ++ String ":"%char t2 ->
  v = w /\ t1 = t2.
Proof.
  intros H.
  apply (split_at_mark ":"%char) in H;
    try (apply decimal_without, colon_is_no_digit).
  destruct H as [Hline H].
  apply (split_at_mark ":"%char) in H;
    try (apply decimal_without, colon_is_no_digit).
  destruct H as [Hcolumn Hrest].
  apply decimal_inj in Hline, Hcolumn.
  destruct v, w. simpl in *. subst. split; reflexivity.
Qed.

(** X1. [line_and_column::append_to_string] leaves the buffer it is given
    in place and puts behind it what [line_and_column::to_string] returns,
    whatever buffer [to_string] is called with. *)
Theorem line_and_column_append_is_buffer_then_to_string :
  forall (v : line_and_column) (buffer scratch : string),
    line_and_column_append_to_string v buffer =
    buffer ++ line_and_column_to_string v scratch.
Proof.
  intros v buffer scratch.
  rewrite line_and_column_append_to_string_rendered,
    line_and_column_to_string_rendered.
  reflexivity.
Qed.

(** X2. [location::append_to_string] only appends: text already in the
    buffer stays in front, for every tab size; at the default tab size what
    it appends is the result of [location::to_string], whatever buffer and
    tab size [to_string] is called with. *)
Theorem location_append_only_appends :
  forall (first_column : N) (l : location) (front buffer scratch : string)
         (tab_size other_tab_size : N),
    location_append_to_string first_column l (front ++ buffer) tab_size =
    front ++ location_append_to_string first_column l buffer tab_size /\
    location_append_to_string first_column l buffer default_tab_size =
    buffer ++ location_to_string first_column l scratch other_tab_size.
Proof.
  intros first_column l front buffer scratch tab_size other_tab_size.
  unfold location_to_string.
  rewrite !location_append_to_string_rendered, string_append_assoc.
  split; reflexivity.
Qed.

(** X3. A location without a source is rendered as [<unknown>:0:0] for
    every offset and tab size: [append_to_string] puts that text behind the
    buffer, [to_string] returns it, and a [parse_error] made from the
    location shows as [what()] that text, a colon, a space and the message
    up to its first NUL. *)
Theorem location_without_source_rendering :
  forall (first_column : N) (l : location) (buffer : string) (tab_size : N)
         (message : string),
    loc_source l = None ->
    location_append_to_string first_column l buffer tab_size =
      buffer ++ "<unknown>:0:0" /\
    location_to_string first_column l buffer tab_size = "<unknown>:0:0" /\
    what (parse_error_new first_column l message) =
      "<unknown>:0:0: " ++ c_str message.
Proof.
  intros first_column l buffer tab_size message Hnone.
  assert (Hfile : file_or_unknown l = "<unknown>")
    by (unfold file_or_unknown; rewrite Hnone; reflexivity).
  rewrite what_rendered by (rewrite Hfile; reflexivity).
  unfold location_to_string.
  rewrite !location_append_to_string_rendered.
  unfold rendered_location, location_get_line_and_column.
  rewrite Hfile, Hnone. repeat split.
Qed.

(** The location of an offset of no source, at tab size 4. *)
Lemma location_without_source_rendering_witness :
  location_append_to_string 1 {| loc_source := None; char_index := 12 |}
    "at " 4 = "at <unknown>:0:0" /\
  location_to_string 1 {| loc_source := None; char_index := 12 |} "at " 4 =
    "<unknown>:0:0" /\
  what (parse_error_new 1 {| loc_source := None; char_index := 12 |}
          "expected a value") = "<unknown>:0:0: expected a value".
Proof.
  apply (location_without_source_rendering 1
           {| loc_source := None; char_index := 12 |} "at " 4
           "expected a value").
  reflexivity.
Defined.



(** X5. [line_and_column::to_string] tells positions apart: two values
    with the same text have the same line and the same column. *)
Theorem line_and_column_to_string_inj :
  forall (v w : line_and_column) (buffer buffer' : string),
    line_and_column_to_string v buffer = line_and_column_to_string w buffer' ->
    v = w.
Proof.
  intros v w buffer buffer' H.
  rewrite !line_and_column_to_string_rendered in H.
  apply (f_equal (fun s => s ++ ":")) in H. cbv beta in H.
  rewrite !string_append_assoc in H.
  apply (line_colon_column_inj v w EmptyString EmptyString). exact H.
Qed.

(** Line 3, column 14 rendered from two different buffers. *)
Lemma line_and_column_to_string_inj_witness :
  line_and_column_to_string {| lc_line := 3; lc_column := 14 |} "x" =
  line_and_column_to_string {| lc_line := 3; lc_column := 14 |} EmptyString /\
  {| lc_line := 3; lc_column := 14 |} = {| lc_line := 3; lc_column := 14 |}.
Proof.
  split; [reflexivity|].
  apply (line_and_column_to_string_inj _ _ "x" EmptyString). reflexivity.
Defined.

(** X6. Two [parse_error] objects made from locations of the same source
    (or both of no source), whose file text holds no NUL, show the same
    [what()] text only if the locations have the same line and column at
    the default tab size and the messages are the same up to their first
    NUL. *)
Theorem parse_error_what_inj :
  forall (first_column : N) (l1 l2 : location) (message1 message2 : string),
    loc_source l1 = loc_source l2 ->
    nul_free (file_or_unknown l1) = true ->
    what (parse_error_new first_column l1 message1) =
    what (parse_error_new first_column l2 message2) ->
    location_get_line_and_column first_column l1 default_tab_size =
    location_get_line_and_column first_column l2 default_tab_size /\
    c_str message1 = c_str message2.
Proof.
  intros first_column l1 l2 message1 message2 Hsource Hfile H.
  assert (Hsame : file_or_unknown l2 = file_or_unknown l1)
    by (unfold file_or_unknown; rewrite Hsource; reflexivity).
  rewrite !what_rendered in H by (try rewrite Hsame; exact Hfile).
  unfold rendered_location in H. cbv zeta in H.
  rewrite Hsame in H.
  rewrite !string_append_assoc in H.
  do 2 apply string_append_cancel_l in H.
  apply line_colon_column_inj in H. destruct H as [Hlc Hmessage].
  split; [exact Hlc | injection Hmessage as Hmessage; exact Hmessage].
Qed.

(** Two errors at the default location with the same message. *)
Lemma parse_error_what_inj_witness :
  location_get_line_and_column 1 location_default default_tab_size =
  location_get_line_and_column 1 location_default default_tab_size /\
  c_str "bad token" = c_str "bad token".
Proof.
  apply (parse_error_what_inj 1 location_default location_default).
  - reflexivity.
  - reflexivity.
  - reflexivity.
Defined.

Lemma mark_in_middle (mark : ascii) (a b : string) :
  In mark (list_ascii_of_string (a ++ String mark b)).
Proof.
  induction a as [|x a IH]; simpl; [left; reflexivity | right; exact IH].
Qed.

(** Two texts that agree and end in the same mark followed by text without
    the mark agree before and after that last mark. *)
Lemma split_at_last_mark (mark : ascii) : forall s1 s2 t1 t2 : string,
  ~ In mark (list_ascii_of_string t1) ->
  ~ In mark (list_ascii_of_string t2) ->
  s1 ++ String mark t1 = s2 ++ String mark t2 ->
  s1 = s2 /\ t1 = t2.
Proof.
  induction s1 as [|x s1 IH]; intros [|y s2] t1 t2 H1 H2 Heq; simpl in *.
  - injection Heq as ->. split; reflexivity.
  - injection Heq as _ ->. exfalso. apply H1, mark_in_middle.
  - injection Heq as _ <-. exfalso. apply H2, mark_in_middle.
  - injection Heq as -> Heq.
    destruct (IH s2 t1 t2) as [-> ->]; auto.
Qed.

Lemma rendered_regrouped (file line column : string) :
  file ++ ":" ++ line ++ ":" ++ column =
  (file ++ String ":" line) ++ String ":" column.
Proof. rewrite string_append_assoc. reflexivity. Qed.

(** X7. The text of [location::to_string] can be split from the right: two
    locations with the same text have the same file text (the file name, or
    [<unknown>]) and the same line and column at the default tab size, even
    when file names hold colons or digits. *)
Theorem location_to_string_inj :
  forall (first_column : N) (l1 l2 : location) (buffer1 buffer2 : string)
         (tab_size1 tab_size2 : N),
    location_to_string first_column l1 buffer1 tab_size1 =
    location_to_string first_column l2 buffer2 tab_size2 ->
    file_or_unknown l1 = file_or_unknown l2 /\
    location_get_line_and_column first_column l1 default_tab_size =
    location_get_line_and_column first_column l2 default_tab_size.
Proof.
  intros first_column l1 l2 buffer1 buffer2 tab_size1 tab_size2 H.
  unfold location_to_string in H.
  rewrite !location_append_to_string_rendered in H.
  unfold rendered_location in H. cbv zeta in H.
  change (EmptyString ++ ?x) with x in H.
  set (lc1 := location_get_line_and_column first_column l1 default_tab_size)
    in *.
  set (lc2 := location_get_line_and_column first_column l2 default_tab_size)
    in *.
  rewrite !rendered_regrouped in H.
  apply (split_at_last_mark ":") in H;
    try (apply decimal_without, colon_is_no_digit).
  destruct H as [H Hcolumn].
  apply (split_at_last_mark ":") in H;
    try (apply decimal_without, colon_is_no_digit).
  destruct H as [Hfile Hline].
  apply decimal_inj in Hline, Hcolumn.
  split; [exact Hfile|].
  destruct lc1, lc2. simpl in *. subst. reflexivity.
Qed.

(** The default location rendered from two different buffers and tab
    sizes. *)
Lemma location_to_string_inj_witness :
  file_or_unknown location_default =
  file_or_unknown {| loc_source := None; char_index := 5 |} /\
  location_get_line_and_column 1 location_default default_tab_size =
  location_get_line_and_column 1 {| loc_source := None; char_index := 5 |}
    default_tab_size.
Proof.
  apply (location_to_string_inj 1 location_default
           {| loc_source := None; char_index := 5 |} "x" EmptyString 4 8).
  reflexivity.
Defined.
